(** * LRUCache.py: an LRU cache built on Python's [OrderedDict]

    The class [LRUCache(OrderedDict)] of [LRUCache.py] is embedded as a
    record (the ordered items of the inherited dictionary plus the
    [capacity] attribute) and its methods as computations in a small
    state-and-exception monad: a method receives the object, may mutate it,
    and either returns or raises.  The inherited [OrderedDict] operations the
    class relies on ([len], [popitem(last=False)], [__setitem__], [get],
    [move_to_end], [__contains__], [__delitem__]) are modelled on an
    association list kept in the dictionary's order, head first (the head
    is what [put] evicts). *)

From stdpp Require Import base numbers list strings.

Local Open Scope Z_scope.

(** ** Python values *)

(** Keys and values are Python objects; the fragment used by the class and
    by its unit tests is [None], integers and strings. *)
Inductive pyobj : Type :=
  | PyNone
  | PyInt (z : Z)
  | PyStr (s : string).

#[global] Instance pyobj_eq_dec : EqDecision pyobj.
Proof. solve_decision. Defined.

(** [value is not None] *)
Definition is_not_None (value : pyobj) : bool :=
  match value with
  | PyNone => false
  | _ => true
  end.

(** The only exception the modelled operations raise. *)
Inductive exn : Type :=
  | KeyError.

(** ** The object and the monad of its methods *)

(** An [LRUCache] instance: the items of the underlying [OrderedDict], in
    order (the head is the eviction candidate), and the attribute
    [capacity]. *)
Record LRUCache : Type := mkLRUCache {
  items : list (pyobj * pyobj);
  capacity : Z
}.

Inductive outcome (A : Type) : Type :=
  | Returns (a : A)
  | Raises (e : exn).
Arguments Returns {A} a.
Arguments Raises {A} e.

(** A method body: it runs on [self] and gives back an outcome together with
    the state [self] is left in (also when it raises). *)
Definition py (A : Type) : Type := LRUCache → outcome A * LRUCache.

#[global] Instance py_ret : MRet py := λ A a self, (Returns a, self).

#[global] Instance py_bind : MBind py := λ A B k m self,
  match m self with
  | (Returns a, self') => k a self'
  | (Raises e, self') => (Raises e, self')
  end.

(** ** The inherited dictionary *)

Module OrderedDict.

(** [list(d.keys())] *)
Definition keys (d : list (pyobj * pyobj)) : list pyobj := d.*1.
Arguments keys : simpl never.

(** The value stored under [key], if any. *)
Fixpoint lookup (key : pyobj) (d : list (pyobj * pyobj)) : option pyobj :=
  match d with
  | [] => None
  | (k, v) :: d' => if decide (k = key) then Some v else lookup key d'
  end.

(** [d[key] = value] on the item list: an existing key keeps its position
    and only its value is replaced; a new key is appended at the end. *)
Fixpoint assign (key value : pyobj) (d : list (pyobj * pyobj))
  : list (pyobj * pyobj) :=
  match d with
  | [] => [(key, value)]
  | (k, v) :: d' =>
      if decide (k = key) then (k, value) :: d'
      else (k, v) :: assign key value d'
  end.

(** The items without [key]; the others keep their order. *)
Definition remove (key : pyobj) (d : list (pyobj * pyobj))
  : list (pyobj * pyobj) :=
  filter (λ kv, kv.1 ≠ key) d.

(** [len(self)] *)
Definition len : py Z :=
  λ self, (Returns (Z.of_nat (length (items self))), self).

(** [self.popitem(last=False)]: removes and returns the first item;
    [KeyError] on an empty dictionary. *)
Definition popitem_first : py (pyobj * pyobj) :=
  λ self,
    match items self with
    | [] => (Raises KeyError, self)
    | kv :: d => (Returns kv, mkLRUCache d (capacity self))
    end.

(** [self[key] = value] *)
Definition setitem (key value : pyobj) : py unit :=
  λ self,
    (Returns tt, mkLRUCache (assign key value (items self)) (capacity self)).

(** [dict.get(self, key, default)] *)
Definition get (key dflt : pyobj) : py pyobj :=
  λ self, (Returns (default dflt (lookup key (items self))), self).

(** [self.move_to_end(key, last=True)]: [KeyError] when [key] is absent. *)
Definition move_to_end (key : pyobj) : py unit :=
  λ self,
    match lookup key (items self) with
    | None => (Raises KeyError, self)
    | Some v =>
        (Returns tt,
         mkLRUCache (remove key (items self) ++ [(key, v)]) (capacity self))
    end.

(** [key in self] *)
Definition contains (key : pyobj) : py bool :=
  λ self, (Returns (bool_decide (key ∈ keys (items self))), self).

(** [del self[key]]: [KeyError] when [key] is absent. *)
Definition delitem (key : pyobj) : py unit :=
  λ self,
    match lookup key (items self) with
    | None => (Raises KeyError, self)
    | Some _ => (Returns tt, mkLRUCache (remove key (items self)) (capacity self))
    end.

End OrderedDict.

(** ** The class [LRUCache] *)

(** [self.capacity] *)
Definition self_capacity : py Z := λ self, (Returns (capacity self), self).

(** [LRUCache.__init__(self, capacity=3)]: the constructor, as the outcome
    of the call [LRUCache(capacity)]. *)
Definition init (capacity : Z) : outcome LRUCache :=
  Returns (mkLRUCache [] capacity).

Definition default_capacity : Z := 3.

(** [LRUCache.put] *)
Definition put (key value : pyobj) : py unit :=
  len_self ← OrderedDict.len;
  cap ← self_capacity;
  (if len_self >=? cap then OrderedDict.popitem_first ≫= λ _, mret tt
   else mret tt) ;;
  OrderedDict.setitem key value.

(** [LRUCache.get] *)
Definition get (key : pyobj) : py pyobj :=
  value ← OrderedDict.get key PyNone;
  (if is_not_None value then OrderedDict.move_to_end key else mret tt) ;;
  mret value.

(** [LRUCache.update] *)
Definition update (key new_value : pyobj) : py unit :=
  present ← OrderedDict.contains key;
  if negb present then put key new_value
  else OrderedDict.move_to_end key ;; OrderedDict.setitem key new_value.

(** ** Observations on a cache *)

(** [len(cache)], the resident count. *)
Definition size (self : LRUCache) : nat := length (items self).

(** [list(cache.keys())]: the order the dictionary keeps its keys in.  The
    class uses it as its recency ordering: [put] evicts from the head, [get]
    and [update] move a key to the tail. *)
Definition order (self : LRUCache) : list pyobj :=
  OrderedDict.keys (items self).

(** The key at the tail of the ordering. *)
Definition mru (self : LRUCache) : option pyobj := last (order self).

(** [cache[key]], when [key] is resident. *)
Definition value_of (key : pyobj) (self : LRUCache) : option pyobj :=
  OrderedDict.lookup key (items self).

(** A dictionary holds each key once. *)
Definition wf (self : LRUCache) : Prop := NoDup (order self).

(** ** Sequences of calls *)

Inductive call : Type :=
  | Put (key value : pyobj)
  | Update (key new_value : pyobj).

Definition do_call (op : call) : py unit :=
  match op with
  | Put key value => put key value
  | Update key new_value => update key new_value
  end.

(** The state of the object after each call of a sequence, in order.  A call
    that raises leaves the object as the exception found it, and the driver
    goes on with the next call (a caller that stops at the first exception
    sees a prefix of this list). *)
Fixpoint trace (ops : list call) (self : LRUCache) : list LRUCache :=
  match ops with
  | [] => []
  | op :: ops' => let self' := (do_call op self).2 in self' :: trace ops' self'
  end.

(** The least recently used of the keys [residents], read off the history
    of the keys that calls have touched, oldest touch first: a key counts at
    its last touch, and the resident whose last touch is the oldest is the
    one that has gone the longest without being used.  This is kept apart
    from [order]: it depends on the calls made, not on where the dictionary
    holds the keys. *)
Definition least_recently_used (history residents : list pyobj)
  : option pyobj :=
  head (filter (λ k, k ∈ residents) (remove_dups history)).

(** [for i, v in enumerate(ks): cache.put(v, i)], as the unit tests fill a
    cache. *)
Fixpoint put_enumerate (i : Z) (ks : list pyobj) : py unit :=
  match ks with
  | [] => mret tt
  | k :: ks' => put k (PyInt i) ;; put_enumerate (i + 1) ks'
  end.

(** The keys of the unit tests. *)
Definition ka : pyobj := PyStr "a".
Definition kb : pyobj := PyStr "b".
Definition kc : pyobj := PyStr "c".
Definition kd : pyobj := PyStr "d".
Definition ke : pyobj := PyStr "e".
Definition kf : pyobj := PyStr "f".

(** The cache a test gets from [LRUCache(capacity=cap)]. *)
Definition fresh (cap : Z) : LRUCache := mkLRUCache [] cap.

(** A full cache of capacity 3, as [put] of "a", "b", "c" leaves it. *)
Definition cache_abc : LRUCache :=
  mkLRUCache [(ka, PyInt 1); (kb, PyInt 2); (kc, PyInt 3)] 3.

(** A cache of capacity 3 in which "b" is resident with the value [None]. *)
Definition cache_aNc : LRUCache :=
  mkLRUCache [(ka, PyInt 1); (kb, PyNone); (kc, PyInt 3)] 3.

(** The items [for i, v in enumerate(ks): cache.put(v, i)] hands to [put],
    in order, counting from [i]: key [v], value its index. *)
Fixpoint enumerated (i : Z) (ks : list pyobj) : list (pyobj * pyobj) :=
  match ks with
  | [] => []
  | k :: ks' => (k, PyInt i) :: enumerated (i + 1) ks'
  end.

(** The last [n] elements of a list (all of it when it is shorter). *)
Definition last_n {A : Type} (n : nat) (l : list A) : list A :=
  drop (length l - n) l.

(** A cache of capacity 1 that is full. *)
Definition cache_a : LRUCache := mkLRUCache [(ka, PyInt 1)] 1.

(** Unfolds a method body down to the dictionary operations it runs. *)
Ltac py_unfold :=
  unfold put, get, update, mbind, py_bind, mret, py_ret, self_capacity,
    OrderedDict.len, OrderedDict.popitem_first, OrderedDict.setitem,
    OrderedDict.get, OrderedDict.move_to_end, OrderedDict.contains,
    OrderedDict.delitem; simpl.

(** Discharges a closed decidable side condition by evaluation. *)
Ltac by_evaluation := apply (bool_decide_unpack _); vm_compute; exact I.

(** * Properties *)

(** ** The unit tests of [LRUCache.py] that the class passes *)

Example test_eviction :
  order (put_enumerate 0 [ka; kb; kc; kd; ke] (fresh 4)).2 = [kb; kc; kd; ke].
Proof. reflexivity. Qed.

Example test_get_updates_usage :
  order ((put_enumerate 0 [ka; kb; kc; kd; ke] ;; get ka) (fresh 5)).2
  = [kb; kc; kd; ke; ka].
Proof. reflexivity. Qed.

Example test_update_existing_key :
  let self := ((put_enumerate 0 [ka; kb; kc; kd; ke] ;; update ka (PyInt 77)) (fresh 5)).2 in
  value_of ka self = Some (PyInt 77) ∧ order self = [kb; kc; kd; ke; ka].
Proof. split; reflexivity. Qed.

Example test_addition_triggers_eviction :
  order ((put_enumerate 0 [ka; kb; kc; kd; ke] ;; put kf (PyInt 88)) (fresh 5)).2
  = [kb; kc; kd; ke; kf].
Proof. reflexivity. Qed.

Example test_get_nonexistent_key :
  (put_enumerate 0 [ka; kb; kc; kd; ke] ;; get (PyStr "thiskeydoesntexist")) (fresh 5)
  = (Returns PyNone, (put_enumerate 0 [ka; kb; kc; kd; ke] (fresh 5)).2).
Proof. reflexivity. Qed.

Example test_repeated_access :
  order ((put_enumerate 0 [ka; kb; kc; kd; ke] ;; get kc ;; get kc) (fresh 4)).2
  = [kb; kd; ke; kc].
Proof. reflexivity. Qed.

Example test_single_capacity :
  let s1 := (put ka (PyInt 1) (fresh 1)).2 in
  let s2 := (put kb (PyInt 2) s1).2 in
  order s1 = [ka] ∧ order s2 = [kb] ∧
  (get ka s2).1 = Returns PyNone ∧ (get kb s2).1 = Returns (PyInt 2).
Proof. repeat split; reflexivity. Qed.

Example test_mixed_operations :
  let self :=
    ((put ka (PyInt 1) ;; put kb (PyInt 2) ;; put kc (PyInt 3) ;; get ka ;;
      update kb (PyInt 22) ;; put kd (PyInt 4)) (fresh 3)).2 in
  order self = [ka; kb; kd] ∧ value_of kb self = Some (PyInt 22) ∧
  (get kc self).1 = Returns PyNone.
Proof. repeat split; reflexivity. Qed.

Example test_manual_deletion :
  let s1 :=
    ((put ka (PyInt 1) ;; put kb (PyInt 2) ;; put kc (PyInt 3) ;;
      OrderedDict.delitem kb) (fresh 3)).2 in
  order s1 = [ka; kc] ∧ order (put kd (PyInt 4) s1).2 = [ka; kc; kd].
Proof. split; reflexivity. Qed.

Example test_update_nonexistent_key :
  let self :=
    ((put_enumerate 0 [ka; kb; kc; kd; ke] ;;
      update (PyStr "thiskeydoesntexistYET") (PyInt 99)) (fresh 5)).2 in
  value_of (PyStr "thiskeydoesntexistYET") self = Some (PyInt 99) ∧
  order self = [kb; kc; kd; ke; PyStr "thiskeydoesntexistYET"].
Proof. split; reflexivity. Qed.

Example test_sequential_access :
  order ((put ka (PyInt 1) ;; put kb (PyInt 2) ;; put kc (PyInt 3) ;;
          get ka ;; get kb) (fresh 3)).2 = [kc; ka; kb].
Proof. reflexivity. Qed.

Example test_overflowing_update :
  let self :=
    ((put ka (PyInt 1) ;; put kb (PyInt 2) ;; put kc (PyInt 3) ;;
      update kd (PyInt 4)) (fresh 3)).2 in
  order self = [kb; kc; kd] ∧ (get ka self).1 = Returns PyNone.
Proof. split; reflexivity. Qed.

(** ** The item list of the inherited dictionary *)

Section item_list.
Implicit Types (d : list (pyobj * pyobj)) (key k value v : pyobj).

Import OrderedDict.

Lemma keys_cons k v d : keys ((k, v) :: d) = k :: keys d.
Proof. reflexivity. Qed.

Lemma keys_app d1 d2 : keys (d1 ++ d2) = keys d1 ++ keys d2.
Proof. unfold keys. apply fmap_app. Qed.

Lemma lookup_None_absent key d : lookup key d = None ↔ key ∉ keys d.
Proof.
  induction d as [|[k v] d IH]; simpl.
  - split; [intros _; apply not_elem_of_nil | done].
  - rewrite keys_cons, not_elem_of_cons. case_decide; subst.
    + split; [done | intros [? _]; done].
    + rewrite IH. split; [intros ?; split; congruence | tauto].
Qed.

Lemma lookup_is_Some_present key d : is_Some (lookup key d) ↔ key ∈ keys d.
Proof.
  rewrite <- not_eq_None_Some, lookup_None_absent.
  split; [apply dec_stable | tauto].
Qed.

Lemma lookup_app_absent key d1 d2 :
  key ∉ keys d1 → lookup key (d1 ++ d2) = lookup key d2.
Proof.
  induction d1 as [|[k v] d1 IH]; simpl; [done|].
  rewrite keys_cons, not_elem_of_cons. intros [Hne Hnin].
  case_decide; [congruence | auto].
Qed.

Lemma lookup_app_present key d1 d2 :
  key ∈ keys d1 → lookup key (d1 ++ d2) = lookup key d1.
Proof.
  induction d1 as [|[k v] d1 IH]; simpl.
  - intros H. by apply elem_of_nil in H.
  - rewrite keys_cons, elem_of_cons. intros [Heq | Hin];
      case_decide; try done. auto.
Qed.

Lemma lookup_snoc_ne key k value d :
  k ≠ key → lookup k (d ++ [(key, value)]) = lookup k d.
Proof.
  intros Hne. induction d as [|[k' v] d IH]; simpl.
  - case_decide; [congruence | done].
  - by rewrite IH.
Qed.

Lemma lookup_snoc_eq key value d :
  key ∉ keys d → lookup key (d ++ [(key, value)]) = Some value.
Proof.
  intros Hnin. rewrite lookup_app_absent by done. simpl. by case_decide.
Qed.

(** *** Assignment *)

Lemma assign_absent key value d :
  key ∉ keys d → assign key value d = d ++ [(key, value)].
Proof.
  induction d as [|[k v] d IH]; simpl; [done|].
  rewrite keys_cons, not_elem_of_cons. intros [Hne Hnin].
  case_decide; [congruence | by rewrite IH].
Qed.

Lemma assign_keys_present key value d :
  key ∈ keys d → keys (assign key value d) = keys d.
Proof.
  induction d as [|[k v] d IH]; simpl.
  - intros H. by apply elem_of_nil in H.
  - rewrite keys_cons, elem_of_cons. intros Hin.
    case_decide; [done|]. rewrite keys_cons. f_equal. apply IH.
    destruct Hin; [congruence | done].
Qed.

Lemma assign_app_last key value v0 d :
  key ∉ keys d → assign key value (d ++ [(key, v0)]) = d ++ [(key, value)].
Proof.
  induction d as [|[k v] d IH]; simpl.
  - intros _. by case_decide.
  - rewrite keys_cons, not_elem_of_cons. intros [Hne Hnin].
    case_decide; [congruence | by rewrite IH].
Qed.

Lemma lookup_assign_eq key value d : lookup key (assign key value d) = Some value.
Proof.
  induction d as [|[k v] d IH]; simpl.
  - by case_decide.
  - case_decide; simpl; case_decide; done.
Qed.

Lemma lookup_assign_ne key k value d :
  k ≠ key → lookup k (assign key value d) = lookup k d.
Proof.
  intros Hne. induction d as [|[k' v] d IH]; simpl.
  - case_decide; [congruence | done].
  - case_decide; simpl; case_decide; congruence.
Qed.

Lemma length_assign_le key value d :
  (length (assign key value d) ≤ S (length d))%nat.
Proof.
  induction d as [|[k v] d IH]; simpl; [lia|].
  case_decide; simpl; lia.
Qed.

Lemma length_assign_present key value d :
  key ∈ keys d → length (assign key value d) = length d.
Proof.
  intros Hin. apply assign_keys_present with (value := value) in Hin.
  apply (f_equal length) in Hin. unfold keys in Hin.
  by rewrite !length_fmap in Hin.
Qed.

(** *** Removal *)

Lemma remove_cons key k v d :
  remove key ((k, v) :: d)
  = if decide (k ≠ key) then (k, v) :: remove key d else remove key d.
Proof. unfold remove. by rewrite filter_cons. Qed.

Lemma keys_remove key d :
  keys (remove key d) = filter (λ k, k ≠ key) (keys d).
Proof.
  induction d as [|[k v] d IH]; [done|].
  rewrite remove_cons, keys_cons, filter_cons.
  case_decide; [by rewrite keys_cons, IH | done].
Qed.

Lemma remove_absent key d : key ∉ keys d → remove key d = d.
Proof.
  induction d as [|[k v] d IH]; [done|].
  rewrite keys_cons, not_elem_of_cons, remove_cons. intros [Hne Hnin].
  case_decide; [by rewrite IH | congruence].
Qed.

Lemma not_elem_of_keys_remove key d : key ∉ keys (remove key d).
Proof. rewrite keys_remove, list_elem_of_filter. tauto. Qed.

Lemma elem_of_keys_remove key k d :
  k ∈ keys (remove key d) ↔ k ≠ key ∧ k ∈ keys d.
Proof. by rewrite keys_remove, list_elem_of_filter. Qed.

Lemma lookup_remove_ne key k d :
  k ≠ key → lookup k (remove key d) = lookup k d.
Proof.
  intros Hne. induction d as [|[k' v] d IH]; [done|].
  rewrite remove_cons. case_decide; simpl; case_decide; congruence.
Qed.

Lemma lookup_remove_eq key d : lookup key (remove key d) = None.
Proof. apply lookup_None_absent, not_elem_of_keys_remove. Qed.

Lemma length_remove_lt key d :
  key ∈ keys d → (length (remove key d) < length d)%nat.
Proof.
  induction d as [|[k v] d IH].
  - intros H. by apply elem_of_nil in H.
  - rewrite keys_cons, elem_of_cons, remove_cons. intros Hin.
    case_decide as Hk; simpl.
    + apply Nat.succ_lt_mono in IH; [done|]. destruct Hin; congruence.
    + pose proof (length_filter (λ kv, kv.1 ≠ key) d). unfold remove. lia.
Qed.

Lemma length_remove_present key d :
  NoDup (keys d) → key ∈ keys d → S (length (remove key d)) = length d.
Proof.
  induction d as [|[k v] d IH].
  - intros _ H. by apply elem_of_nil in H.
  - rewrite keys_cons, NoDup_cons, elem_of_cons, remove_cons.
    intros [Hnin Hnd] Hin. case_decide as Hk; simpl.
    + f_equal. apply IH; [done|]. destruct Hin; congruence.
    + subst k. by rewrite remove_absent.
Qed.

Lemma remove_snoc key value d :
  remove key (d ++ [(key, value)]) = remove key d.
Proof.
  unfold remove. rewrite filter_app, filter_cons_False; [|simpl; tauto].
  by rewrite filter_nil, app_nil_r.
Qed.

Lemma remove_idemp key d : remove key (remove key d) = remove key d.
Proof. apply remove_absent, not_elem_of_keys_remove. Qed.

(** *** Keys stay distinct *)

Lemma NoDup_keys_remove key d : NoDup (keys d) → NoDup (keys (remove key d)).
Proof. rewrite keys_remove. apply NoDup_filter. Qed.

Lemma NoDup_keys_snoc key value d :
  NoDup (keys d) → key ∉ keys d → NoDup (keys (d ++ [(key, value)])).
Proof.
  intros Hnd Hnin. rewrite keys_app, NoDup_app. split_and!; [done| |].
  - intros k Hk. unfold keys; simpl. rewrite list_elem_of_singleton.
    congruence.
  - apply NoDup_singleton.
Qed.

Lemma NoDup_keys_assign key value d :
  NoDup (keys d) → NoDup (keys (assign key value d)).
Proof.
  intros Hnd. destruct (decide (key ∈ keys d)) as [Hin | Hnin].
  - by rewrite assign_keys_present.
  - rewrite assign_absent by done. by apply NoDup_keys_snoc.
Qed.
End item_list.

(** ** The methods, case by case *)

Section methods.
Implicit Types (self : LRUCache) (key k value v new_value : pyobj).

(** Below capacity [put] is the plain assignment [self[key] = value]. *)
Lemma put_below_capacity key value self :
  Z.of_nat (size self) < capacity self →
  put key value self
  = (Returns tt,
     mkLRUCache (OrderedDict.assign key value (items self)) (capacity self)).
Proof.
  intros Hlt. py_unfold. fold (size self).
  destruct (Z.geb_spec (Z.of_nat (size self)) (capacity self)); [lia | done].
Qed.

(** At or above capacity, with something to evict: the head goes first,
    then the assignment runs on what is left. *)
Lemma put_at_capacity key value self kv rest :
  capacity self ≤ Z.of_nat (size self) →
  items self = kv :: rest →
  put key value self
  = (Returns tt, mkLRUCache (OrderedDict.assign key value rest) (capacity self)).
Proof.
  intros Hle Hitems. py_unfold. fold (size self).
  destruct (Z.geb_spec (Z.of_nat (size self)) (capacity self)); [|lia].
  by rewrite Hitems.
Qed.

(** At or above capacity with nothing to evict, [popitem] raises and
    [put] with it, before anything is stored. *)
Lemma put_at_capacity_empty key value self :
  capacity self ≤ Z.of_nat (size self) →
  items self = [] →
  put key value self = (Raises KeyError, self).
Proof.
  intros Hle Hitems. py_unfold. fold (size self).
  destruct (Z.geb_spec (Z.of_nat (size self)) (capacity self)); [|lia].
  by rewrite Hitems.
Qed.

Lemma get_absent key self :
  key ∉ order self → get key self = (Returns PyNone, self).
Proof.
  intros Hnin. apply lookup_None_absent in Hnin.
  py_unfold. by rewrite Hnin.
Qed.

(** A resident key whose value is not [None] is returned and moved to the
    most recently used end. *)
Lemma get_present_not_None key v self :
  value_of key self = Some v → is_not_None v = true →
  get key self
  = (Returns v,
     mkLRUCache (OrderedDict.remove key (items self) ++ [(key, v)])
       (capacity self)).
Proof.
  unfold value_of. intros Hv Hnn. py_unfold. rewrite Hv. simpl.
  by rewrite Hnn, Hv.
Qed.

(** On a resident key [update] moves the key to the end and then assigns,
    which replaces the value of the item that is now last. *)
Lemma update_resident key new_value self :
  key ∈ order self →
  update key new_value self
  = (Returns tt,
     mkLRUCache (OrderedDict.remove key (items self) ++ [(key, new_value)])
       (capacity self)).
Proof.
  intros Hin. py_unfold. fold (order self).
  rewrite bool_decide_eq_true_2 by done. simpl.
  apply lookup_is_Some_present in Hin as [v Hv]. rewrite Hv. simpl.
  by rewrite assign_app_last by apply not_elem_of_keys_remove.
Qed.

Lemma update_not_resident key new_value self :
  key ∉ order self → update key new_value self = put key new_value self.
Proof.
  intros Hnin. unfold update at 1, mbind, py_bind, OrderedDict.contains.
  fold (order self). by rewrite bool_decide_eq_false_2.
Qed.

(** No method touches [self.capacity]. *)
Lemma put_capacity key value self :
  capacity (put key value self).2 = capacity self.
Proof.
  py_unfold. destruct (_ >=? _); [|done]. by destruct (items self).
Qed.

Lemma update_capacity key new_value self :
  capacity (update key new_value self).2 = capacity self.
Proof.
  destruct (decide (key ∈ order self)) as [Hin | Hnin].
  - by rewrite update_resident.
  - rewrite update_not_resident by done. apply put_capacity.
Qed.

(** The resident count after [put] and [update] stays within a
    non-negative capacity, whether the call returns or raises. *)
Lemma put_size_bound key value self :
  Z.of_nat (size self) ≤ capacity self →
  Z.of_nat (size (put key value self).2) ≤ capacity self.
Proof.
  intros Hle.
  destruct (Z.lt_ge_cases (Z.of_nat (size self)) (capacity self)) as [Hlt | Hge].
  - rewrite put_below_capacity by done. unfold size in *; simpl.
    pose proof (length_assign_le key value (items self)). lia.
  - destruct (items self) as [|kv rest] eqn:Hitems.
    + by rewrite put_at_capacity_empty.
    + rewrite (put_at_capacity _ _ _ kv rest) by done.
      unfold size in *; rewrite Hitems in *; simpl in *.
      pose proof (length_assign_le key value rest). lia.
Qed.

Lemma update_size_bound key new_value self :
  Z.of_nat (size self) ≤ capacity self →
  Z.of_nat (size (update key new_value self).2) ≤ capacity self.
Proof.
  intros Hle. destruct (decide (key ∈ order self)) as [Hin | Hnin].
  - rewrite update_resident by done. unfold size in *; simpl.
    rewrite length_app; simpl.
    pose proof (length_remove_lt key (items self) Hin). lia.
  - rewrite update_not_resident by done. by apply put_size_bound.
Qed.

(** Keys stay distinct under every method. *)
Lemma put_wf key value self : wf self → wf (put key value self).2.
Proof.
  intros Hnd.
  destruct (Z.lt_ge_cases (Z.of_nat (size self)) (capacity self)) as [Hlt | Hge].
  - rewrite put_below_capacity by done. unfold wf, order in *; simpl.
    by apply NoDup_keys_assign.
  - destruct (items self) as [|[k v] rest] eqn:Hitems.
    + by rewrite put_at_capacity_empty.
    + rewrite (put_at_capacity _ _ _ (k, v) rest) by done.
      unfold wf, order in *; simpl.
      rewrite Hitems, keys_cons in Hnd. apply NoDup_cons in Hnd as [_ ?].
      by apply NoDup_keys_assign.
Qed.

Lemma update_wf key new_value self : wf self → wf (update key new_value self).2.
Proof.
  intros Hnd. destruct (decide (key ∈ order self)) as [Hin | Hnin].
  - rewrite update_resident by done. unfold wf, order; simpl.
    apply NoDup_keys_snoc; [by apply NoDup_keys_remove|].
    apply not_elem_of_keys_remove.
  - rewrite update_not_resident by done. by apply put_wf.
Qed.

Lemma get_wf key self : wf self → wf (get key self).2.
Proof.
  intros Hnd. destruct (value_of key self) as [v|] eqn:Hv.
  - destruct (is_not_None v) eqn:Hnn.
    + rewrite (get_present_not_None _ v) by done. unfold wf, order; simpl.
      apply NoDup_keys_snoc; [by apply NoDup_keys_remove|].
      apply not_elem_of_keys_remove.
    + unfold value_of in Hv. py_unfold. rewrite Hv. simpl. by rewrite Hnn.
  - apply lookup_None_absent in Hv. by rewrite get_absent.
Qed.

Lemma delitem_wf key self : wf self → wf (OrderedDict.delitem key self).2.
Proof.
  intros Hnd. unfold OrderedDict.delitem.
  destruct (OrderedDict.lookup key (items self)); [|done].
  unfold wf, order in *; simpl. by apply NoDup_keys_remove.
Qed.

Lemma do_call_wf op self : wf self → wf (do_call op self).2.
Proof. destruct op; [apply put_wf | apply update_wf]. Qed.

(** Every cache reached from a fresh one by [put] and [update] calls has
    distinct keys. *)
Lemma trace_wf ops self : wf self → Forall wf (trace ops self).
Proof.
  revert self. induction ops as [|op ops IH]; intros self Hwf; simpl.
  - constructor.
  - constructor; [by apply do_call_wf | apply IH, do_call_wf, Hwf].
Qed.
End methods.

(** ** Lookups *)

Section lookups.
Implicit Types (self : LRUCache) (key k value v : pyobj).

(** C8: [get] on an absent key returns [None] (the absent-marker) and
    leaves the object exactly as it was, and [key in cache] returns the
    presence of the key and never changes the object, whether the key is
    resident or not. *)
Theorem get_absent_and_contains_leave_cache key self :
  (key ∉ order self → get key self = (Returns PyNone, self)) ∧
  OrderedDict.contains key self
  = (Returns (bool_decide (key ∈ order self)), self).
Proof. split; [apply get_absent | done]. Qed.

(** C10: when [key] is resident with the stored value [None], [get]
    returns [None], exactly what it returns for any absent key of any
    cache, and the object is unchanged: the key is not moved to the most
    recently used end. *)
Theorem get_None_valued_not_moved key self :
  value_of key self = Some PyNone →
  key ∈ order self ∧
  get key self = (Returns PyNone, self) ∧
  (∀ key' self', key' ∉ order self' → (get key self).1 = (get key' self').1).
Proof.
  intros Hv. assert (Hget : get key self = (Returns PyNone, self)).
  { unfold value_of in Hv. py_unfold. by rewrite Hv. }
  split_and!.
  - apply lookup_is_Some_present. unfold value_of in Hv. by rewrite Hv.
  - done.
  - intros key' self' Hnin. by rewrite Hget, get_absent.
Qed.
End lookups.

Lemma get_absent_and_contains_leave_cache_witness :
(PyStr "z" ∉ order cache_abc) ∧
  get (PyStr "z") cache_abc = (Returns PyNone, cache_abc).
Proof.
  assert (H : PyStr "z" ∉ order cache_abc)
    by (apply (bool_decide_unpack _); vm_compute; exact I).
  split; [exact H|].
  exact (proj1 (get_absent_and_contains_leave_cache (PyStr "z") cache_abc) H).
Defined.

Lemma get_None_valued_not_moved_witness :
  value_of kb cache_aNc = Some PyNone ∧
  get kb cache_aNc = (Returns PyNone, cache_aNc).
Proof.
  split; [reflexivity|].
  exact (proj1 (proj2 (get_None_valued_not_moved kb cache_aNc eq_refl))).
Defined.

(** ** Construction *)

(** C3, as the code has it: [LRUCache(capacity)] with a negative capacity
    does not fail; the constructor returns an empty cache whose [capacity]
    attribute is the negative value it was given, neither rejected nor
    clamped. *)
Theorem init_negative_capacity_accepted (cap : Z) :
  cap < 0 → init cap = Returns (mkLRUCache [] cap).
Proof. reflexivity. Qed.

Lemma init_negative_capacity_accepted_witness :
  -7 < 0 ∧ init (-7) = Returns (mkLRUCache [] (-7)).
Proof. split; [lia | apply (init_negative_capacity_accepted (-7)); lia]. Defined.

(** C3 fails as stated: [LRUCache(capacity=-1)] returns a cache, it raises
    nothing. *)
Lemma init_minus_one_returns :
  -1 < 0 ∧ init (-1) = Returns (fresh (-1)) ∧ ∀ e, init (-1) ≠ Raises e.
Proof. split_and!; [lia | reflexivity | discriminate]. Qed.

(** ** Insertion *)

Section insertion.
Implicit Types (self : LRUCache) (key k value v : pyobj).

(** A [put] that returns on a key that was not resident leaves that key at
    the most recently used end. *)
Lemma put_new_key_mru key value self :
  key ∉ order self → (put key value self).1 = Returns tt →
  mru (put key value self).2 = Some key.
Proof.
  intros Hnin.
  destruct (Z.lt_ge_cases (Z.of_nat (size self)) (capacity self)) as [Hlt | Hge].
  - rewrite put_below_capacity by done. intros _. unfold mru, order; simpl.
    rewrite assign_absent by done. rewrite keys_app. apply last_snoc.
  - destruct (items self) as [|[k v] rest] eqn:Hitems.
    + by rewrite put_at_capacity_empty.
    + rewrite (put_at_capacity _ _ _ (k, v) rest) by done. intros _.
      unfold mru, order in *; simpl. rewrite Hitems, keys_cons in Hnin.
      apply not_elem_of_cons in Hnin as [_ Hnin].
      rewrite assign_absent by done. rewrite keys_app. apply last_snoc.
Qed.

(** Below capacity, [put] on a resident key replaces the value where the
    key stands: the recency ordering is the one before the call. *)
Lemma put_resident_below_capacity_order key value self :
  key ∈ order self → Z.of_nat (size self) < capacity self →
  order (put key value self).2 = order self.
Proof.
  intros Hin Hlt. rewrite put_below_capacity by done.
  unfold order; simpl. by apply assign_keys_present.
Qed.

(** C9: on a key that is not resident, [update] is [put]: same outcome
    (returned or raised) and same resulting object, evictions included. *)
Theorem update_absent_same_as_put key new_value self :
  key ∉ order self → update key new_value self = put key new_value self.
Proof. apply update_not_resident. Qed.

(** What the eviction removes is the head of [order]: when [put] inserts a
    key that is not resident into a cache that is at (or above) its capacity
    and has a head, the call returns, the new items are the old ones without
    the head, followed by the new item; the head is the only key that was
    resident and no longer is, and every other resident key keeps its value.
    Whether that head is the key that went unused the longest depends on
    the calls that came before. *)
Lemma put_new_key_at_capacity_drops_head key value self k0 v0 rest :
  wf self →
  items self = (k0, v0) :: rest →
  capacity self ≤ Z.of_nat (size self) →
  key ∉ order self →
  let r := put key value self in
  r = (Returns tt, mkLRUCache (rest ++ [(key, value)]) (capacity self)) ∧
  (∀ k, k ∈ order self ∧ k ∉ order r.2 ↔ k = k0) ∧
  (∀ k, k ≠ k0 → k ≠ key → value_of k r.2 = value_of k self) ∧
  size r.2 = size self.
Proof.
  intros Hwf Hitems Hge Hnin r. subst r.
  rewrite (put_at_capacity _ _ _ (k0, v0) rest) by done.
  unfold wf, order, value_of, size in *. rewrite Hitems in *. simpl.
  rewrite keys_cons in Hwf, Hnin.
  apply NoDup_cons in Hwf as [Hk0 Hnd].
  apply not_elem_of_cons in Hnin as [Hne Hnin].
  rewrite assign_absent by done. split_and!.
  - done.
  - intros k. rewrite keys_cons, keys_app, elem_of_cons, elem_of_app.
    split.
    + intros [[-> | Hin] Hout]; [done | tauto].
    + intros ->. split; [by left|].
      intros [? | Hin]; [done|].
      unfold OrderedDict.keys in Hin; simpl in Hin.
      apply list_elem_of_singleton in Hin. congruence.
  - intros k Hk0' Hkey. rewrite lookup_snoc_ne by done.
    case_decide; [congruence | done].
  - rewrite length_app; simpl. lia.
Qed.
End insertion.

Lemma update_absent_same_as_put_witness :
  (kd ∉ order cache_abc) ∧
  update kd (PyInt 4) cache_abc = put kd (PyInt 4) cache_abc.
Proof.
  assert (H : kd ∉ order cache_abc)
    by (apply (bool_decide_unpack _); vm_compute; exact I).
  split; [exact H | exact (update_absent_same_as_put kd (PyInt 4) cache_abc H)].
Defined.

(** ** What the class's own tests expect of [put] and the code does not do *)

(** C1: the scenario of [test_duplicate_put].  With capacity 3, after
    [put("a", 1)], [put("b", 2)], [put("a", 99)] every call has returned and
    "a" holds 99, but the keys are still in the order "a", "b": the
    overwriting [put] left "a" at the least recently used end, where the test
    (and [update], on a resident key) has it at the most recently used end. *)
Theorem test_duplicate_put_keeps_position :
  let r := (put ka (PyInt 1) ;; put kb (PyInt 2) ;; put ka (PyInt 99)) (fresh 3) in
  init 3 = Returns (fresh 3) ∧
  r.1 = Returns tt ∧
  value_of ka r.2 = Some (PyInt 99) ∧
  order r.2 = [ka; kb] ∧
  mru r.2 = Some kb ∧
  mru r.2 ≠ Some ka.
Proof. split_and!; [reflexivity .. | discriminate]. Qed.

(** C2: the scenario of [test_zero_capacity].  On a cache built with
    capacity 0 the first [put] finds [len(self) >= self.capacity], calls
    [popitem] on the empty dictionary and raises [KeyError]; nothing is
    stored and the object is unchanged, but the call does not return. *)
Theorem put_zero_capacity_raises key value :
  init 0 = Returns (fresh 0) ∧
  put key value (fresh 0) = (Raises KeyError, fresh 0) ∧
  size (put key value (fresh 0)).2 = 0%nat.
Proof. split_and!; reflexivity. Qed.

(** C5: the eviction does not always take the least recently used key.  With
    capacity 3, the calls [put("a", 1)], [put("b", 2)], [put("a", 99)],
    [put("c", 3)] all return and leave the cache full with "a", "b", "c"
    resident; "b" is the resident that has gone the longest without being
    put.  The insertion [put("d", 4)] then evicts exactly one key, the head of
    the ordering, and that key is "a": the overwriting [put] left "a" at the
    head, so "a" is evicted and "b" stays, where the comment in [put] has
    it evict the least recently used element. *)
Theorem put_evicts_head_not_least_recently_used :
  let self := mkLRUCache [(ka, PyInt 99); (kb, PyInt 2); (kc, PyInt 3)] 3 in
  let r := put kd (PyInt 4) self in
  (put ka (PyInt 1) ;; put kb (PyInt 2) ;; put ka (PyInt 99) ;;
   put kc (PyInt 3)) (fresh 3) = (Returns tt, self) ∧
  Z.of_nat (size self) = capacity self ∧
  (kd ∉ order self) ∧
  least_recently_used [ka; kb; ka; kc] (order self) = Some kb ∧
  r = (Returns tt, mkLRUCache [(kb, PyInt 2); (kc, PyInt 3); (kd, PyInt 4)] 3) ∧
  (∀ k, k ∈ order self ∧ k ∉ order r.2 ↔ k = ka) ∧
  kb ∈ order r.2 ∧
  ka ≠ kb.
Proof.
  intros self r.
  assert (Hwf : wf self) by by_evaluation.
  assert (Hnin : kd ∉ order self) by by_evaluation.
  assert (Hge : capacity self ≤ Z.of_nat (size self))
    by (vm_compute; discriminate).
  split_and!; [reflexivity | reflexivity | exact Hnin | reflexivity
              | reflexivity | | by_evaluation | discriminate].
  apply (put_new_key_at_capacity_drops_head kd (PyInt 4) self ka (PyInt 99)
           [(kb, PyInt 2); (kc, PyInt 3)] Hwf eq_refl Hge Hnin).
Qed.

(** With capacity 0 no call ever gets past the eviction: every [put], and
    every [update] (the key is never resident), raises and leaves the cache
    empty. *)
Lemma do_call_zero_capacity op :
  do_call op (fresh 0) = (Raises KeyError, fresh 0).
Proof. destruct op; reflexivity. Qed.

Lemma trace_zero_capacity ops :
  Forall (λ s, s = fresh 0) (trace ops (fresh 0)).
Proof.
  induction ops as [|op ops IH]; simpl; [constructor|].
  rewrite do_call_zero_capacity. simpl. by constructor.
Qed.

(** ** The capacity bound *)

Section capacity_bound.
Implicit Types (self : LRUCache) (ops : list call).

Lemma do_call_capacity op self : capacity (do_call op self).2 = capacity self.
Proof. destruct op; [apply put_capacity | apply update_capacity]. Qed.

Lemma do_call_size_bound op self :
  Z.of_nat (size self) ≤ capacity self →
  Z.of_nat (size (do_call op self).2) ≤ capacity self.
Proof. destruct op; [apply put_size_bound | apply update_size_bound]. Qed.

Lemma trace_size_bound ops self :
  Z.of_nat (size self) ≤ capacity self →
  Forall (λ s, Z.of_nat (size s) ≤ capacity self) (trace ops self).
Proof.
  revert self. induction ops as [|op ops IH]; intros self Hle; simpl.
  - constructor.
  - pose proof (do_call_size_bound op self Hle) as Hle'.
    constructor; [done|].
    rewrite <- (do_call_capacity op self) in Hle' |- *. by apply IH.
Qed.

Lemma length_trace ops self : length (trace ops self) = length ops.
Proof.
  revert self. induction ops as [|op ops IH]; intros self; simpl; [done|].
  by rewrite IH.
Qed.

(** C6: from a cache freshly constructed with a non-negative capacity,
    after every call of every sequence of [put] and [update] calls the
    resident count is at most the capacity (the trace has one state per
    call, the state in which that call left the object). *)
Theorem size_within_capacity (cap : Z) ops self :
  0 ≤ cap →
  init cap = Returns self →
  length (trace ops self) = length ops ∧
  Forall (λ s, Z.of_nat (size s) ≤ cap) (trace ops self).
Proof.
  intros Hcap Hinit. injection Hinit as <-. split; [apply length_trace|].
  apply (trace_size_bound ops (mkLRUCache [] cap)). unfold size. simpl. lia.
Qed.
End capacity_bound.

Lemma size_within_capacity_witness :
  0 ≤ 2 ∧
  Forall (λ s, Z.of_nat (size s) ≤ 2)
    (trace [Put ka (PyInt 1); Put kb (PyInt 2); Update kc (PyInt 3);
            Put kb (PyInt 4); Update kc (PyInt 5)] (fresh 2)).
Proof.
  split; [lia|].
  apply (size_within_capacity 2 _ (fresh 2)); [lia | reflexivity].
Defined.

(** ** Update of a resident key *)

Section update_resident.
Implicit Types (self : LRUCache) (key k new_value : pyobj).

(** C7: on a resident key, at capacity or not, [update] returns, the key
    then holds the new value and is at the most recently used end; the
    resident keys are the ones before the call and so is their count
    (nothing is evicted), and the other items keep their values and their
    order. *)
Theorem update_resident_replaces_and_moves key new_value self :
  wf self →
  key ∈ order self →
  let r := update key new_value self in
  r.1 = Returns tt ∧
  value_of key r.2 = Some new_value ∧
  mru r.2 = Some key ∧
  (∀ k, k ∈ order r.2 ↔ k ∈ order self) ∧
  size r.2 = size self ∧
  (∀ k, k ≠ key → value_of k r.2 = value_of k self) ∧
  OrderedDict.remove key (items r.2) = OrderedDict.remove key (items self).
Proof.
  intros Hwf Hin r. subst r. rewrite update_resident by done.
  unfold wf, mru, order, value_of, size in *. simpl. split_and!.
  - done.
  - apply lookup_snoc_eq, not_elem_of_keys_remove.
  - rewrite keys_app. apply last_snoc.
  - intros k. rewrite keys_app, elem_of_app, elem_of_keys_remove.
    unfold OrderedDict.keys at 2; simpl. rewrite list_elem_of_singleton.
    destruct (decide (k = key)) as [-> | Hne]; [tauto|]. tauto.
  - rewrite length_app; simpl.
    pose proof (length_remove_present key (items self) Hwf Hin). lia.
  - intros k Hne. rewrite lookup_snoc_ne by done. by apply lookup_remove_ne.
  - by rewrite remove_snoc, remove_idemp.
Qed.
End update_resident.

Lemma update_resident_replaces_and_moves_witness :
  ka ∈ order cache_abc ∧
  (update ka (PyInt 77) cache_abc).1 = Returns tt ∧
  mru (update ka (PyInt 77) cache_abc).2 = Some ka.
Proof.
  assert (Hwf : wf cache_abc)
    by (apply (bool_decide_unpack _); vm_compute; exact I).
  assert (Hin : ka ∈ order cache_abc)
    by (apply (bool_decide_unpack _); vm_compute; exact I).
  pose proof (update_resident_replaces_and_moves ka (PyInt 77) cache_abc Hwf Hin)
    as (Hret & _ & Hmru & _).
  exact (conj Hin (conj Hret Hmru)).
Defined.

(** ** Deletion *)

Section deletion.
Implicit Types (self : LRUCache) (key k : pyobj).

(** C4, as the code has it.  The class defines no [delete]; the deletion
    it inherits is [del cache[key]].  On a resident key it returns and the
    key is gone; on an absent key it raises [KeyError] and leaves the
    object unchanged.  Either way the items left are the former ones
    without [key]: every other key keeps its presence, its value and its
    place relative to the others, and the capacity is untouched. *)
Theorem delitem_removes_only_key key self :
  let r := OrderedDict.delitem key self in
  (key ∈ order self → r.1 = Returns tt) ∧
  (key ∉ order self → r = (Raises KeyError, self)) ∧
  (key ∉ order r.2) ∧
  items r.2 = OrderedDict.remove key (items self) ∧
  order r.2 = filter (λ k, k ≠ key) (order self) ∧
  (∀ k, k ≠ key → value_of k r.2 = value_of k self) ∧
  capacity r.2 = capacity self.
Proof.
  intros r. subst r. unfold OrderedDict.delitem, order, value_of.
  destruct (OrderedDict.lookup key (items self)) as [v|] eqn:Hv; simpl.
  - split_and!; try done.
    + intros Hnin. apply lookup_None_absent in Hnin. congruence.
    + apply not_elem_of_keys_remove.
    + apply keys_remove.
    + intros k Hne. by apply lookup_remove_ne.
  - apply lookup_None_absent in Hv as Hnin. split_and!; try done.
    + by rewrite remove_absent.
    + by rewrite <- keys_remove, remove_absent.
Qed.
End deletion.

Lemma delitem_removes_only_key_witness :
  kb ∈ order cache_abc ∧ (OrderedDict.delitem kb cache_abc).1 = Returns tt.
Proof.
  assert (Hin : kb ∈ order cache_abc)
    by (apply (bool_decide_unpack _); vm_compute; exact I).
  exact (conj Hin (proj1 (delitem_removes_only_key kb cache_abc) Hin)).
Defined.

(** C4 fails as stated on an absent key: [del cache["z"]] on the cache
    holding "a", "b", "c" raises [KeyError]; it is an error, not a silent
    no-op. *)
Lemma delitem_absent_key_raises :
  (PyStr "z" ∉ order cache_abc) ∧
  OrderedDict.delitem (PyStr "z") cache_abc = (Raises KeyError, cache_abc) ∧
  (OrderedDict.delitem (PyStr "z") cache_abc).1 ≠ Returns tt.
Proof.
  split_and!; [|reflexivity|discriminate].
  apply (bool_decide_unpack _). vm_compute. exact I.
Qed.

(** * Further properties of the methods *)

(** ** [get] *)

Section get_properties.
Implicit Types (self : LRUCache) (key k value v : pyobj).

Lemma get_outcome key self :
  (get key self).1 = Returns (default PyNone (value_of key self)).
Proof.
  destruct (value_of key self) as [v|] eqn:Hv; simpl.
  - destruct (is_not_None v) eqn:Hnn.
    + by rewrite (get_present_not_None _ v).
    + unfold value_of in Hv. py_unfold. rewrite Hv. simpl. by rewrite Hnn.
  - apply lookup_None_absent in Hv. by rewrite get_absent.
Qed.

(** The items after [get]: moved to the end when the key holds a value other
    than [None], untouched otherwise. *)
Lemma get_items key self :
  items (get key self).2
  = match value_of key self with
    | Some v =>
        if is_not_None v
        then OrderedDict.remove key (items self) ++ [(key, v)]
        else items self
    | None => items self
    end.
Proof.
  destruct (value_of key self) as [v|] eqn:Hv.
  - destruct (is_not_None v) eqn:Hnn.
    + by rewrite (get_present_not_None _ v).
    + unfold value_of in Hv. py_unfold. rewrite Hv. simpl. by rewrite Hnn.
  - apply lookup_None_absent in Hv. by rewrite get_absent.
Qed.

Lemma get_capacity key self : capacity (get key self).2 = capacity self.
Proof.
  py_unfold. destruct (OrderedDict.lookup key (items self)) as [v|] eqn:Hv;
    simpl; [|done].
  destruct (is_not_None v); simpl; [|done]. by rewrite Hv.
Qed.

(** X8: [get] never raises: it returns the stored value, or [None] for an absent
    key.  Whatever it returns, every key holds the value it held, the
    resident keys are the same, the capacity is the same, and so is the
    resident count. *)
Theorem get_returns_value_and_keeps_contents key self :
  (get key self).1 = Returns (default PyNone (value_of key self)) ∧
  (∀ k, value_of k (get key self).2 = value_of k self) ∧
  (∀ k, k ∈ order (get key self).2 ↔ k ∈ order self) ∧
  capacity (get key self).2 = capacity self ∧
  (wf self → size (get key self).2 = size self).
Proof.
  split; [apply get_outcome|]. split_and!; [| |apply get_capacity|].
  - intros k. unfold value_of at 1. rewrite get_items.
    destruct (value_of key self) as [v|] eqn:Hv; [|done].
    destruct (is_not_None v); [|done].
    destruct (decide (k = key)) as [-> | Hne].
    + by rewrite lookup_snoc_eq by apply not_elem_of_keys_remove.
    + rewrite lookup_snoc_ne by done. by apply lookup_remove_ne.
  - intros k. unfold order at 1. rewrite get_items.
    destruct (value_of key self) as [v|] eqn:Hv; [|done].
    destruct (is_not_None v); [|done].
    assert (Hin : key ∈ order self).
    { apply lookup_is_Some_present. unfold value_of in Hv. by rewrite Hv. }
    rewrite keys_app, elem_of_app, elem_of_keys_remove.
    unfold OrderedDict.keys at 2; simpl. rewrite list_elem_of_singleton.
    fold (order self). destruct (decide (k = key)) as [-> | Hne]; tauto.
  - intros Hwf. unfold size at 1. rewrite get_items.
    destruct (value_of key self) as [v|] eqn:Hv; [|done].
    destruct (is_not_None v); [|done].
    assert (Hin : key ∈ order self).
    { apply lookup_is_Some_present. unfold value_of in Hv. by rewrite Hv. }
    rewrite length_app; simpl.
    pose proof (length_remove_present key (items self) Hwf Hin).
    unfold size. lia.
Qed.

(** X9: A successful read of a value other than [None] is a use: the key is then
    at the most recently used end, and the other items are the same, in the
    same order. *)
Theorem get_resident_moves_to_mru key v self :
  value_of key self = Some v →
  is_not_None v = true →
  mru (get key self).2 = Some key ∧
  OrderedDict.remove key (items (get key self).2)
  = OrderedDict.remove key (items self).
Proof.
  intros Hv Hnn. rewrite (get_present_not_None _ v) by done.
  unfold mru, order; simpl. split.
  - rewrite keys_app. apply last_snoc.
  - by rewrite remove_snoc, remove_idemp.
Qed.

(** X10: Reading the same key twice in a row is the same as reading it once: the
    second [get] returns what the first did and leaves the object as the
    first left it. *)
Theorem get_twice_same_as_once key self :
  get key (get key self).2 = get key self.
Proof.
  destruct (value_of key self) as [v|] eqn:Hv.
  - destruct (is_not_None v) eqn:Hnn.
    + rewrite (get_present_not_None key v self) by done.
      rewrite (get_present_not_None key v).
      * simpl. by rewrite remove_snoc, remove_idemp.
      * unfold value_of; simpl.
        apply lookup_snoc_eq, not_elem_of_keys_remove.
      * done.
    + assert (Hget : get key self = (Returns v, self)).
      { unfold value_of in Hv. py_unfold. rewrite Hv. simpl. by rewrite Hnn. }
      by rewrite Hget.
  - apply lookup_None_absent in Hv.
    rewrite (get_absent key self) by done. simpl. by apply get_absent.
Qed.
End get_properties.

Lemma get_returns_value_and_keeps_contents_witness :
  wf cache_abc ∧ size (get ka cache_abc).2 = size cache_abc.
Proof.
  assert (Hwf : wf cache_abc) by by_evaluation.
  split; [exact Hwf|].
  exact (proj2 (proj2 (proj2 (proj2
    (get_returns_value_and_keeps_contents ka cache_abc)))) Hwf).
Defined.

Lemma get_resident_moves_to_mru_witness :
  value_of ka cache_abc = Some (PyInt 1) ∧ mru (get ka cache_abc).2 = Some ka.
Proof.
  split; [reflexivity|].
  exact (proj1 (get_resident_moves_to_mru ka (PyInt 1) cache_abc eq_refl eq_refl)).
Defined.

(** ** [put] and [update]: when they raise, and what a returning call stores *)

Section put_properties.
Implicit Types (self : LRUCache) (key k value v new_value : pyobj).

(** The two ways a [put] can go. *)
Lemma put_cases key value self :
  (items self = [] ∧ capacity self ≤ 0 ∧
   put key value self = (Raises KeyError, self)) ∨
  (∃ d, put key value self
        = (Returns tt,
           mkLRUCache (OrderedDict.assign key value d) (capacity self))).
Proof.
  destruct (Z.lt_ge_cases (Z.of_nat (size self)) (capacity self)) as [Hlt | Hge].
  - right. exists (items self). by apply put_below_capacity.
  - destruct (items self) as [|kv rest] eqn:Hitems.
    + left. split_and!; [done | | by apply put_at_capacity_empty].
      unfold size in Hge. rewrite Hitems in Hge. simpl in Hge. lia.
    + right. exists rest. by apply (put_at_capacity _ _ _ kv).
Qed.

Lemma put_raises_iff key value self :
  (put key value self).1 = Raises KeyError
  ↔ items self = [] ∧ capacity self ≤ 0.
Proof.
  destruct (put_cases key value self) as [(Hnil & Hcap & Hput) | [d Hput]];
    rewrite Hput; simpl.
  - done.
  - split; [done|]. intros [Hnil Hcap].
    assert (Hraise : put key value self = (Raises KeyError, self)).
    { apply put_at_capacity_empty; [|done].
      unfold size. rewrite Hnil. simpl. lia. }
    rewrite Hraise in Hput. discriminate.
Qed.

Lemma put_returns_value_of key value self :
  (put key value self).1 = Returns tt →
  value_of key (put key value self).2 = Some value.
Proof.
  intros Hret.
  destruct (put_cases key value self) as [(_ & _ & Hput) | [d Hput]];
    rewrite Hput in Hret |- *; [discriminate|].
  unfold value_of; simpl. apply lookup_assign_eq.
Qed.

(** X3: [put] raises in exactly one situation: the cache is empty and its
    capacity is zero or negative, so that the eviction runs with nothing to
    evict.  The exception is [KeyError] and the object is left as it was. *)
Theorem put_raises_iff_empty_without_capacity key value self :
  ((put key value self).1 = Raises KeyError
   ↔ items self = [] ∧ capacity self ≤ 0) ∧
  ((put key value self).1 = Raises KeyError → (put key value self).2 = self).
Proof.
  split; [apply put_raises_iff|].
  destruct (put_cases key value self) as [(_ & _ & Hput) | [d Hput]];
    by rewrite Hput.
Qed.

(** X2: Round trip: when [put(key, value)] returns, the key holds the value and
    an immediate [get(key)] returns it. *)
Theorem put_then_get_returns_value key value self :
  (put key value self).1 = Returns tt →
  value_of key (put key value self).2 = Some value ∧
  (get key (put key value self).2).1 = Returns value.
Proof.
  intros Hret. pose proof (put_returns_value_of key value self Hret) as Hv.
  split; [done|]. by rewrite get_outcome, Hv.
Qed.

(** X1: A [put] that returns on a key that was not resident leaves the key at the
    most recently used end: it is the last of the residents to be evicted. *)
Theorem put_absent_key_becomes_mru key value self :
  key ∉ order self →
  (put key value self).1 = Returns tt →
  mru (put key value self).2 = Some key.
Proof. apply put_new_key_mru. Qed.

(** X4: At capacity, [put] on a resident key other than the head still evicts
    the head: the call returns, the head is gone, the key holds the new value
    in the place where it stood, and the cache is one entry smaller. *)
Theorem put_resident_at_capacity_evicts_head key value self k0 v0 rest :
  wf self →
  items self = (k0, v0) :: rest →
  capacity self ≤ Z.of_nat (size self) →
  key ∈ order self →
  key ≠ k0 →
  let r := put key value self in
  r.1 = Returns tt ∧
  order r.2 = OrderedDict.keys rest ∧
  (k0 ∉ order r.2) ∧
  value_of key r.2 = Some value ∧
  S (size r.2) = size self.
Proof.
  intros Hwf Hitems Hge Hin Hne r. subst r.
  rewrite (put_at_capacity _ _ _ (k0, v0) rest) by done.
  unfold wf, order, value_of, size in *. rewrite Hitems in *. simpl.
  rewrite keys_cons in Hwf, Hin.
  apply NoDup_cons in Hwf as [Hk0 Hnd].
  apply elem_of_cons in Hin as [? | Hin]; [done|].
  rewrite assign_keys_present by done. split_and!; try done.
  - apply lookup_assign_eq.
  - by rewrite length_assign_present.
Qed.

(** X5: At capacity, [put] on the key that is the head evicts that very key and
    stores it again as a new one: it ends up at the most recently used end
    with the new value, and nothing else changes. *)
Theorem put_head_at_capacity_moves_it_to_end key value self v0 rest :
  wf self →
  items self = (key, v0) :: rest →
  capacity self ≤ Z.of_nat (size self) →
  put key value self
  = (Returns tt, mkLRUCache (rest ++ [(key, value)]) (capacity self)).
Proof.
  intros Hwf Hitems Hge.
  rewrite (put_at_capacity _ _ _ (key, v0) rest) by done.
  unfold wf, order in Hwf. rewrite Hitems, keys_cons in Hwf.
  apply NoDup_cons in Hwf as [Hk0 _]. by rewrite assign_absent.
Qed.

(** X6: When [update] returns, the key holds the new value and is at the most
    recently used end, whether it was resident or not. *)
Theorem update_returns_value_at_mru key new_value self :
  (update key new_value self).1 = Returns tt →
  value_of key (update key new_value self).2 = Some new_value ∧
  mru (update key new_value self).2 = Some key.
Proof.
  destruct (decide (key ∈ order self)) as [Hin | Hnin].
  - rewrite update_resident by done. intros _.
    unfold value_of, mru, order; simpl. split.
    + apply lookup_snoc_eq, not_elem_of_keys_remove.
    + rewrite keys_app. apply last_snoc.
  - rewrite update_not_resident by done. intros Hret. split.
    + by apply put_returns_value_of.
    + by apply put_new_key_mru.
Qed.

(** X7: [update] raises exactly when [put] does: on an empty cache whose
    capacity is zero or negative.  On a resident key it always returns. *)
Theorem update_raises_iff_empty_without_capacity key new_value self :
  (update key new_value self).1 = Raises KeyError
  ↔ items self = [] ∧ capacity self ≤ 0.
Proof.
  destruct (decide (key ∈ order self)) as [Hin | Hnin].
  - rewrite update_resident by done. simpl. split; [done|].
    intros [Hnil _]. unfold order in Hin. rewrite Hnil in Hin.
    by apply elem_of_nil in Hin.
  - rewrite update_not_resident by done. apply put_raises_iff.
Qed.
End put_properties.

Lemma put_raises_iff_empty_without_capacity_witness :
  (put ka (PyInt 1) (fresh (-2))).1 = Raises KeyError ∧
  items (fresh (-2)) = [] ∧ capacity (fresh (-2)) ≤ 0 ∧
  (put ka (PyInt 1) (fresh (-2))).2 = fresh (-2).
Proof.
  pose proof (put_raises_iff_empty_without_capacity ka (PyInt 1) (fresh (-2)))
    as [[Hif _] Hsame].
  exact (conj eq_refl (conj (proj1 (Hif eq_refl))
          (conj (proj2 (Hif eq_refl)) (Hsame eq_refl)))).
Defined.

Lemma put_then_get_returns_value_witness :
  (put kd (PyInt 4) cache_abc).1 = Returns tt ∧
  (get kd (put kd (PyInt 4) cache_abc).2).1 = Returns (PyInt 4).
Proof.
  split; [reflexivity|].
  exact (proj2 (put_then_get_returns_value kd (PyInt 4) cache_abc eq_refl)).
Defined.

Lemma put_absent_key_becomes_mru_witness :
  (kd ∉ order cache_abc) ∧ mru (put kd (PyInt 4) cache_abc).2 = Some kd.
Proof.
  assert (Hnin : kd ∉ order cache_abc) by by_evaluation.
  exact (conj Hnin
          (put_absent_key_becomes_mru kd (PyInt 4) cache_abc Hnin eq_refl)).
Defined.

Lemma put_resident_at_capacity_evicts_head_witness :
  kc ∈ order cache_abc ∧
  order (put kc (PyInt 9) cache_abc).2 = [kb; kc] ∧
  S (size (put kc (PyInt 9) cache_abc).2) = size cache_abc.
Proof.
  assert (Hwf : wf cache_abc) by by_evaluation.
  assert (Hin : kc ∈ order cache_abc) by by_evaluation.
  assert (Hcap : capacity cache_abc ≤ Z.of_nat (size cache_abc))
    by (vm_compute; discriminate).
  assert (Hne : kc ≠ ka) by discriminate.
  pose proof (put_resident_at_capacity_evicts_head kc (PyInt 9) cache_abc
                ka (PyInt 1) [(kb, PyInt 2); (kc, PyInt 3)]
                Hwf eq_refl Hcap Hin Hne) as (_ & Hord & _ & _ & Hsize).
  exact (conj Hin (conj Hord Hsize)).
Defined.

Lemma put_head_at_capacity_moves_it_to_end_witness :
  put ka (PyInt 9) cache_abc
  = (Returns tt, mkLRUCache [(kb, PyInt 2); (kc, PyInt 3); (ka, PyInt 9)] 3).
Proof.
  assert (Hwf : wf cache_abc) by by_evaluation.
  assert (Hcap : capacity cache_abc ≤ Z.of_nat (size cache_abc))
    by (vm_compute; discriminate).
  exact (put_head_at_capacity_moves_it_to_end ka (PyInt 9) cache_abc (PyInt 1)
           [(kb, PyInt 2); (kc, PyInt 3)] Hwf eq_refl Hcap).
Defined.

Lemma update_returns_value_at_mru_witness :
  (update kd (PyInt 4) cache_abc).1 = Returns tt ∧
  value_of kd (update kd (PyInt 4) cache_abc).2 = Some (PyInt 4) ∧
  mru (update kd (PyInt 4) cache_abc).2 = Some kd.
Proof.
  split; [reflexivity|].
  exact (update_returns_value_at_mru kd (PyInt 4) cache_abc eq_refl).
Defined.

Lemma update_raises_iff_empty_without_capacity_witness :
  (items (fresh 0) = [] ∧ capacity (fresh 0) ≤ 0) ∧
  (update ka (PyInt 1) (fresh 0)).1 = Raises KeyError.
Proof.
  assert (H : items (fresh 0) = [] ∧ capacity (fresh 0) ≤ 0)
    by (split; [reflexivity | vm_compute; discriminate]).
  exact (conj H
    (proj2 (update_raises_iff_empty_without_capacity ka (PyInt 1) (fresh 0)) H)).
Defined.

(** ** Calls in sequence *)

Section last_n_facts.
Context {A : Type}.
Implicit Types (l k : list A) (n : nat).

Lemma last_n_short n l : (length l ≤ n)%nat → last_n n l = l.
Proof.
  intros Hle. unfold last_n. by replace (length l - n)%nat with 0%nat by lia.
Qed.

Lemma length_last_n n l : length (last_n n l) = (length l `min` n)%nat.
Proof. unfold last_n. rewrite length_drop. lia. Qed.

Lemma last_n_sublist n l : last_n n l `sublist_of` l.
Proof. apply sublist_drop. Qed.

Lemma last_n_snoc_full n l x :
  length l = n → (0 < n)%nat → last_n n (l ++ [x]) = drop 1 l ++ [x].
Proof.
  intros Hlen Hpos. unfold last_n. rewrite length_app; simpl.
  replace (length l + 1 - n)%nat with 1%nat by lia.
  rewrite drop_app. replace (1 - length l)%nat with 0%nat by lia. done.
Qed.

(** Cutting to the last [n] before appending does not change the last [n]
    of the whole. *)
Lemma last_n_app_last_n n l k : last_n n (last_n n l ++ k) = last_n n (l ++ k).
Proof.
  destruct (decide (length l ≤ n)%nat) as [Hle | Hgt].
  - by rewrite (last_n_short n l).
  - unfold last_n at 1 3. rewrite !length_app, length_last_n.
    unfold last_n. rewrite !drop_app, drop_drop, length_drop. f_equal.
    + f_equal. lia.
    + f_equal. lia.
Qed.
End last_n_facts.

Section sequences.
Implicit Types (self : LRUCache) (key k value v : pyobj) (ks : list pyobj).

Lemma py_bind_returns {A B : Type} (m : py A) (f : A → py B) self a self' :
  m self = (Returns a, self') → (m ≫= f) self = f a self'.
Proof. intros Hm. unfold mbind, py_bind. by rewrite Hm. Qed.

Lemma keys_enumerated i ks : OrderedDict.keys (enumerated i ks) = ks.
Proof.
  revert i. induction ks as [|k ks IH]; intros i; simpl; [done|].
  by rewrite keys_cons, IH.
Qed.

(** With room for at least one entry and the bound respected, [put] of a key
    that is not resident appends the item and keeps the last [capacity]
    items. *)
Lemma put_new_key_items key value self :
  0 < capacity self →
  Z.of_nat (size self) ≤ capacity self →
  key ∉ order self →
  put key value self
  = (Returns tt,
     mkLRUCache (last_n (Z.to_nat (capacity self)) (items self ++ [(key, value)]))
       (capacity self)).
Proof.
  intros Hpos Hle Hnin.
  destruct (Z.lt_ge_cases (Z.of_nat (size self)) (capacity self)) as [Hlt | Hge].
  - rewrite put_below_capacity by done. rewrite assign_absent by done.
    rewrite last_n_short; [done|]. rewrite length_app; simpl.
    unfold size in Hlt. lia.
  - destruct (items self) as [|[k0 v0] rest] eqn:Hitems.
    + unfold size in Hge. rewrite Hitems in Hge. simpl in Hge. lia.
    + rewrite (put_at_capacity _ _ _ (k0, v0) rest) by done.
      unfold order in Hnin. rewrite Hitems, keys_cons in Hnin.
      apply not_elem_of_cons in Hnin as [_ Hnin].
      rewrite assign_absent by done.
      rewrite last_n_snoc_full; [done| |lia].
      unfold size in Hle, Hge. rewrite Hitems in Hle, Hge. lia.
Qed.

Lemma put_enumerate_from i ks self :
  0 < capacity self →
  Z.of_nat (size self) ≤ capacity self →
  NoDup (order self ++ ks) →
  put_enumerate i ks self
  = (Returns tt,
     mkLRUCache
       (last_n (Z.to_nat (capacity self)) (items self ++ enumerated i ks))
       (capacity self)).
Proof.
  revert i self. induction ks as [|k ks IH]; intros i self Hpos Hle Hnd; simpl.
  - rewrite app_nil_r, last_n_short by (unfold size in Hle; lia).
    by destruct self.
  - assert (Hnin : k ∉ order self).
    { apply NoDup_app in Hnd as (_ & Hdisj & _). intros Hin.
      apply (Hdisj k Hin). by left. }
    erewrite py_bind_returns by (by apply put_new_key_items).
    set (self' := mkLRUCache _ _).
    rewrite (IH (i + 1) self'); subst self'; simpl.
    + by rewrite last_n_app_last_n, <- app_assoc.
    + done.
    + unfold size; simpl. rewrite length_last_n. lia.
    + unfold order; simpl.
      apply (sublist_NoDup _ ((order self ++ [k]) ++ ks)).
      * by rewrite <- app_assoc.
      * apply sublist_app; [|done].
        assert (Hk : order self ++ [k]
                     = OrderedDict.keys (items self ++ [(k, PyInt i)]))
          by by rewrite keys_app.
        rewrite Hk. unfold OrderedDict.keys.
        apply fmap_sublist, last_n_sublist.
Qed.

(** X11: Filling a fresh cache of positive capacity with distinct keys, as the
    tests do with [for i, v in enumerate(ks): cache.put(v, i)]: every call
    returns, and the cache ends up holding the last [capacity] keys (all of
    them when there are fewer), in the order they were put, each with its
    index. *)
Theorem put_enumerate_keeps_last i ks (cap : Z) :
  0 < cap →
  NoDup ks →
  put_enumerate i ks (fresh cap)
  = (Returns tt, mkLRUCache (last_n (Z.to_nat cap) (enumerated i ks)) cap) ∧
  order (put_enumerate i ks (fresh cap)).2 = last_n (Z.to_nat cap) ks.
Proof.
  intros Hpos Hnd.
  assert (Hrun : put_enumerate i ks (fresh cap)
    = (Returns tt, mkLRUCache (last_n (Z.to_nat cap) (enumerated i ks)) cap)).
  { apply (put_enumerate_from i ks (fresh cap)); simpl; [done | | done].
    unfold size; simpl. lia. }
  split; [done|]. rewrite Hrun. unfold order, last_n; simpl.
  unfold OrderedDict.keys. rewrite fmap_drop. fold (OrderedDict.keys (enumerated i ks)).
  rewrite keys_enumerated. do 2 f_equal.
  rewrite <- (keys_enumerated i ks) at 2. unfold OrderedDict.keys.
  by rewrite length_fmap.
Qed.

(** X12: Deleting a resident key makes room: on a cache within its capacity, a
    [put] of a new key right after [del cache[key]] returns and evicts
    nothing; the other items stay, in order, and the new one follows them. *)
Theorem delitem_then_put_evicts_nothing key k value self :
  wf self →
  Z.of_nat (size self) ≤ capacity self →
  key ∈ order self →
  k ∉ order self →
  (OrderedDict.delitem key ;; put k value) self
  = (Returns tt,
     mkLRUCache (OrderedDict.remove key (items self) ++ [(k, value)])
       (capacity self)).
Proof.
  intros Hwf Hle Hin Hnin.
  apply lookup_is_Some_present in Hin as Hsome. destruct Hsome as [v Hv].
  erewrite py_bind_returns
    by (unfold OrderedDict.delitem; rewrite Hv; reflexivity).
  rewrite put_below_capacity; simpl.
  - rewrite assign_absent; [done|].
    rewrite elem_of_keys_remove. tauto.
  - unfold size in *; simpl.
    pose proof (length_remove_lt key (items self) Hin). lia.
Qed.

(** X13: A key just read survives the next insertion: on a cache at capacity with
    at least two entries, after a [get] that returns a value other than
    [None], a [put] of a new key returns and the key read is still resident,
    with its value. *)
Theorem get_then_put_keeps_key k v key value self :
  wf self →
  value_of k self = Some v →
  is_not_None v = true →
  (2 ≤ size self)%nat →
  capacity self ≤ Z.of_nat (size self) →
  key ∉ order self →
  let r := (get k ;; put key value) self in
  r.1 = Returns tt ∧ value_of k r.2 = Some v ∧ k ∈ order r.2 ∧
  mru r.2 = Some key.
Proof.
  intros Hwf Hv Hnn Hsize Hge Hnin r. subst r.
  assert (Hin : k ∈ order self).
  { apply lookup_is_Some_present. unfold value_of in Hv. by rewrite Hv. }
  assert (Hne : key ≠ k) by (intros ->; done).
  erewrite py_bind_returns by (by apply get_present_not_None).
  pose proof (length_remove_present k (items self) Hwf Hin) as Hlen.
  destruct (OrderedDict.remove k (items self)) as [|kv rest] eqn:Hrem.
  { unfold size in Hsize. simpl in Hlen. lia. }
  assert (Hrest : key ∉ OrderedDict.keys (rest ++ [(k, v)])).
  { rewrite keys_app, elem_of_app. intros [Hr | Hk].
    - apply Hnin. apply (elem_of_keys_remove k key (items self)).
      rewrite Hrem. destruct kv. rewrite keys_cons. by right.
    - unfold OrderedDict.keys in Hk; simpl in Hk.
      by apply list_elem_of_singleton in Hk. }
  assert (Hk : k ∉ OrderedDict.keys rest).
  { pose proof (not_elem_of_keys_remove k (items self)) as Hnk.
    rewrite Hrem in Hnk. destruct kv. rewrite keys_cons in Hnk.
    by apply not_elem_of_cons in Hnk as [_ ?]. }
  rewrite (put_at_capacity _ _ _ kv (rest ++ [(k, v)])); simpl.
  - rewrite assign_absent by done. unfold value_of, mru, order; simpl.
    split_and!; [done | | |].
    + rewrite lookup_snoc_ne by done. by apply lookup_snoc_eq.
    + rewrite !keys_app, !elem_of_app. left. right.
      unfold OrderedDict.keys; simpl. by apply list_elem_of_singleton.
    + rewrite keys_app. apply last_snoc.
  - unfold size in *; simpl. rewrite length_app; simpl. simpl in Hlen. lia.
  - done.
Qed.
End sequences.

(** X14: A cache whose capacity is zero or negative never holds anything: from
    the fresh cache every [put] and every [update] raises [KeyError] and
    leaves it empty, however many calls are made. *)
Theorem nonpositive_capacity_never_stores (cap : Z) (ops : list call) :
  cap ≤ 0 →
  (∀ op, do_call op (fresh cap) = (Raises KeyError, fresh cap)) ∧
  Forall (λ s, s = fresh cap) (trace ops (fresh cap)).
Proof.
  intros Hcap.
  assert (Hcall : ∀ op, do_call op (fresh cap) = (Raises KeyError, fresh cap)).
  { intros [key value | key value]; simpl.
    - apply put_at_capacity_empty; [|done]. unfold size; simpl. lia.
    - rewrite update_not_resident by apply not_elem_of_nil.
      apply put_at_capacity_empty; [|done]. unfold size; simpl. lia. }
  split; [done|].
  induction ops as [|op ops IH]; simpl; [constructor|].
  rewrite Hcall. simpl. by constructor.
Qed.

Lemma nonpositive_capacity_never_stores_witness :
  -1 ≤ 0 ∧
  Forall (λ s, s = fresh (-1))
    (trace [Put ka (PyInt 1); Update kb (PyInt 2); Put ka (PyInt 3)] (fresh (-1))).
Proof.
  split; [lia|].
  apply (nonpositive_capacity_never_stores (-1)); lia.
Defined.

Lemma put_enumerate_keeps_last_witness :
  0 < 4 ∧
  order (put_enumerate 0 [ka; kb; kc; kd; ke] (fresh 4)).2
  = last_n 4 [ka; kb; kc; kd; ke].
Proof.
  assert (Hnd : NoDup [ka; kb; kc; kd; ke]) by by_evaluation.
  split; [lia|].
  apply (put_enumerate_keeps_last 0 [ka; kb; kc; kd; ke] 4); [lia | exact Hnd].
Defined.

Lemma delitem_then_put_evicts_nothing_witness :
  kb ∈ order cache_abc ∧
  (OrderedDict.delitem kb ;; put kd (PyInt 4)) cache_abc
  = (Returns tt, mkLRUCache [(ka, PyInt 1); (kc, PyInt 3); (kd, PyInt 4)] 3).
Proof.
  assert (Hwf : wf cache_abc) by by_evaluation.
  assert (Hin : kb ∈ order cache_abc) by by_evaluation.
  assert (Hnin : kd ∉ order cache_abc) by by_evaluation.
  assert (Hcap : Z.of_nat (size cache_abc) ≤ capacity cache_abc)
    by (vm_compute; discriminate).
  exact (conj Hin
    (delitem_then_put_evicts_nothing kb kd (PyInt 4) cache_abc Hwf Hcap Hin Hnin)).
Defined.

Lemma get_then_put_keeps_key_witness :
  value_of ka cache_abc = Some (PyInt 1) ∧
  ka ∈ order ((get ka ;; put kd (PyInt 4)) cache_abc).2.
Proof.
  assert (Hwf : wf cache_abc) by by_evaluation.
  assert (Hnin : kd ∉ order cache_abc) by by_evaluation.
  assert (Hsize : (2 ≤ size cache_abc)%nat) by (vm_compute; lia).
  assert (Hcap : capacity cache_abc ≤ Z.of_nat (size cache_abc))
    by (vm_compute; discriminate).
  pose proof (get_then_put_keeps_key ka (PyInt 1) kd (PyInt 4) cache_abc
                Hwf eq_refl eq_refl Hsize Hcap Hnin) as (_ & _ & Hin & _).
  exact (conj eq_refl Hin).
Defined.

(** Two residents are needed for that: on a full cache of one entry the key
    just read is the one evicted. *)
Example get_then_put_single_entry :
  order ((get ka ;; put kb (PyInt 2)) cache_a).2 = [kb].
Proof. reflexivity. Qed.
